(** * outfits.bio client and credential flows

    A shallow embedding of the places of the application that take
    decisions:

    - [Auth]      : [authorize] of the credentials provider in
                    [src/server/auth.ts];
    - [Like]      : the optimistic [likeProfile] mutation of
                    [src/components/ProfileCard.tsx];
    - [Settings]  : [handleFormSubmit] and the [editProfile] / [setImage]
                    mutations of [src/pages/settings/profile.tsx];
    - [Callbacks] : the [jwt] and [session] callbacks of [src/server/auth.ts];
    - [LinkText]  : the text shown for a profile link;
    - [PostModal] : [closeModal], the menu and the heading of the post modal;
    - [Chain]     : measures on the chains of answers of the settings page.

    JavaScript objects used as dictionaries (the object returned by
    [authorize], the query cache) are finite maps; awaited collaborators
    (the ORM, bcrypt, the RPC layer, the object store) are explicit
    parameters or explicit deliveries, and every call made to them is
    recorded in a log so that "is never invoked" and "is issued before" can
    be stated. *)

From Stdlib Require Import ZArith Ascii.
From stdpp Require Import base option strings list gmap.

Open Scope string_scope.
Open Scope list_scope.
Open Scope stdpp_scope.

(** ** JavaScript truthiness of an optional string

    [x && ...] on a value of type [string | null | undefined] continues
    only when [x] is neither absent nor the empty string. *)
Module Js.

Definition truthy (x : option string) : bool :=
  match x with
  | Some s => negb (String.eqb s "")
  | None => false
  end.

(** The values a field of a plain object holds in this development. *)
Inductive value : Type :=
  | VNull
  | VStr (s : string).

Definition of_nullable (x : option string) : value :=
  match x with
  | Some s => VStr s
  | None => VNull
  end.

(** Interpolation [`${x}`] of an optional string. *)
Definition interpolate (x : option string) : string :=
  match x with
  | Some s => s
  | None => "undefined"
  end.

(** A field left empty: absent, or the empty string. *)
Definition empty (x : option string) : Prop := x = None ∨ x = Some "".

End Js.

(** ** Credential authentication ([src/server/auth.ts]) *)
Module Auth.

(** The row [prisma.user.findUnique] yields under
    [select: { id, username, image, password }]. *)
Record UserRow : Type := {
  id : string;
  username : string;
  image : option string;
  password : option string;
}.

(** What the sign-in form posts; either field may be missing at run time,
    and the whole record may be [undefined]. *)
Record Credentials : Type := {
  c_email : option string;
  c_password : option string;
}.

(** Calls to the awaited collaborators, in the order they are made. *)
Inductive Call : Type :=
  | FindUnique (email : option string)
  | BcryptCompare (plain hash : string).

#[global] Instance Call_eq_dec : EqDecision Call.
Proof. solve_decision. Defined.

(** An [async] body: the calls it made so far, and either the [Error]
    message it threw or its value. *)
Definition Async (A : Type) : Type := list Call * (string + A).

#[global] Instance Async_ret : MRet Async := λ A x, ([], inr x).

#[global] Instance Async_bind : MBind Async := λ A B f m,
  match m with
  | (calls, inl e) => (calls, inl e)
  | (calls, inr x) => let '(calls', r) := f x in (calls ++ calls', r)
  end.

Definition throw {A : Type} (msg : string) : Async A := ([], inl msg).

Definition calls {A : Type} (m : Async A) : list Call := m.1.
Definition outcome {A : Type} (m : Async A) : string + A := m.2.

Section Authorize.

(** [prisma.user.findUnique({ where: { email }, select: ... })], taken to
    complete: the row, or [null]. *)
Variable findUnique : option string → option UserRow.
(** [bcrypt.compare(plain, hash)]. *)
Variable compare : string → string → bool.

Definition await_findUnique (email : option string) : Async (option UserRow) :=
  ([FindUnique email], inr (findUnique email)).

Definition await_compare (plain hash : string) : Async bool :=
  ([BcryptCompare plain hash], inr (compare plain hash)).

(** The object literal [{ id: user.id, username: user.username,
    image: user.image }]. *)
Definition public_identity (user : UserRow) : gmap string Js.value :=
  <["id" := Js.VStr (id user)]>
    (<["username" := Js.VStr (username user)]>
       (<["image" := Js.of_nullable (image user)]> ∅)).

(** [user.password && credentials?.password &&
     (await bcrypt.compare(credentials.password, user.password))],
    as the boolean [!passwordMatches] tests. *)
Definition passwordMatches (user : UserRow) (credentials : option Credentials)
  : Async bool :=
  match password user with
  | Some hash =>
      if Js.truthy (Some hash) then
        match credentials ≫= c_password with
        | Some plain =>
            if Js.truthy (Some plain) then await_compare plain hash
            else mret false
        | None => mret false
        end
      else mret false
  | None => mret false
  end.

Definition authorize (credentials : option Credentials)
  : Async (gmap string Js.value) :=
  user ← await_findUnique (credentials ≫= c_email);
  match user with
  | None => throw "No user found"
  | Some user =>
      ok ← passwordMatches user credentials;
      if negb ok then throw "Password does not match"
      else mret (public_identity user)
  end.

(** The supplied password and the stored hash are both present (neither
    absent nor the empty string, which the [&&] chain treats alike) and
    the comparison accepts them. *)
Definition accepted (user : UserRow) (credentials : option Credentials)
  : Prop :=
  ∃ plain hash,
    password user = Some hash ∧ hash ≠ "" ∧
    credentials ≫= c_password = Some plain ∧ plain ≠ "" ∧
    compare plain hash = true.

End Authorize.

(** A table of identities for running [authorize] on concrete data: the
    stored record, with its unique email. *)
Record Identity : Type := {
  i_email : string;
  i_row : UserRow;
}.

Definition findUnique_in (db : list Identity) (email : option string)
  : option UserRow :=
  match email with
  | Some e => i_row <$> List.find (λ u, String.eqb (i_email u) e) db
  | None => None
  end.

(** Fixtures: one stored identity, and a comparison that accepts exactly
    the password ["correct"] against the stored hash. *)
Definition alice : UserRow :=
  {| id := "ck1"; username := "alice"; image := Some "avatar.png";
     password := Some "$2b$10$stored" |}.

Definition demo_db : list Identity :=
  [ {| i_email := "a@x.com"; i_row := alice |} ].

Definition demo_compare (plain hash : string) : bool :=
  String.eqb plain "correct" && String.eqb hash "$2b$10$stored".

Definition demo_authorize (email plain : string)
  : Async (gmap string Js.value) :=
  authorize (findUnique_in demo_db) demo_compare
    (Some {| c_email := Some email; c_password := Some plain |}).

End Auth.

(** ** Optimistic like toggle ([src/components/ProfileCard.tsx]) *)
Module Like.

(** Modelled from the spec: the [LinkType] enum of the database schema,
    which is not among the sources (section 3 of the specification lists its
    members). *)
Inductive LinkType : Type :=
  | TWITTER | YOUTUBE | TIKTOK | DISCORD | INSTAGRAM | GITHUB | WEBSITE | OTHER.

Record Link : Type := {
  link_id : string;
  link_url : string;
  link_type : LinkType;
}.

(** [RouterOutput['user']['getProfile']], with the fields the card reads. *)
Record ProfileData : Type := {
  id : string;
  username : string;
  image : option string;
  tagline : option string;
  admin : bool;
  verified : bool;
  imageCount : Z;
  likeCount : Z;
  authUserHasLiked : bool;
  links : list Link;
}.

#[global] Instance LinkType_eq_dec : EqDecision LinkType.
Proof. solve_decision. Defined.
#[global] Instance Link_eq_dec : EqDecision Link.
Proof. solve_decision. Defined.
#[global] Instance ProfileData_eq_dec : EqDecision ProfileData.
Proof. solve_decision. Defined.

(** What the component does to its collaborators, in order. *)
Inductive Event : Type :=
  | Cancel (username : string)        (* ctx.user.getProfile.cancel *)
  | Invalidate (username : string)    (* ctx.user.getProfile.invalidate *)
  | LikeRequest (id : string)         (* the likeProfile call itself *)
  | ToastError (message : string)
  | Push (path : string)
  | SetLikeAnimation (b : bool).

#[global] Instance Event_eq_dec : EqDecision Event.
Proof. solve_decision. Defined.

(** The client: the query cache of [getProfile], keyed by the [username]
    input, and the log of events. *)
Record Client : Type := {
  cache : gmap string ProfileData;
  log : list Event;
}.

Definition emit (e : Event) (st : Client) : Client :=
  {| cache := cache st; log := log st ++ [e] |}.

(** [ctx.user.getProfile.getData({ username })]. *)
Definition getData (username : string) (st : Client) : option ProfileData :=
  cache st !! username.

(** [ctx.user.getProfile.setData({ username }, data)]. *)
Definition setData (username : string) (data : ProfileData) (st : Client)
  : Client :=
  {| cache := <[username := data]> (cache st); log := log st |}.

(** [{ ...p, authUserHasLiked: liked, likeCount: count }]. *)
Definition with_like (p : ProfileData) (liked : bool) (count : Z)
  : ProfileData :=
  {| id := id p; username := username p; image := image p;
     tagline := tagline p; admin := admin p; verified := verified p;
     imageCount := imageCount p; likeCount := count;
     authUserHasLiked := liked; links := links p |}.

(** The value [onMutate] writes. *)
Definition optimistic (previousProfileData : ProfileData) : ProfileData :=
  with_like previousProfileData
    (negb (authUserHasLiked previousProfileData))
    (likeCount previousProfileData
       + (if authUserHasLiked previousProfileData then -1 else 1))%Z.

(** [onMutate]: the returned context is [undefined] when the cache holds
    no entry. *)
Definition onMutate (username : string) (st : Client)
  : Client * option ProfileData :=
  let st := emit (Cancel username) st in
  let previousProfileData := getData username st in
  match previousProfileData with
  | None => (st, None)
  | Some previousProfileData =>
      (setData username (optimistic previousProfileData) st,
       Some previousProfileData)
  end.

Definition onSettled (username : string) (st : Client) : Client :=
  emit (Invalidate username) st.

(** Modelled from the spec: [handleErrors] of [utils/handle-errors.util],
    which is not among the sources. Section 7: a handler converts the
    mutation's error into a user-visible toast plus a local state reset,
    the reset being the [fn] it is given. *)
Definition handleErrors (message : string) (fn : Client → Client)
    (st : Client) : Client :=
  fn (emit (ToastError message) st).

(** The [fn] of [onError]; [profileData] is the component's prop as the
    closure that runs sees it. *)
Definition onError_fn (username : string) (profileData : option ProfileData)
    (st : Client) : Client :=
  match profileData with
  | None => st
  | Some profileData =>
      setData username
        (with_like profileData (negb (authUserHasLiked profileData))
           (likeCount profileData)) st
  end.

Definition onError (username : string) (profileData : option ProfileData)
    (st : Client) : Client :=
  handleErrors "Could not like!" (onError_fn username profileData) st.

(** The mutation library's life cycle: [mutate] runs [onMutate] and then
    issues the call; when the call settles, [onError] runs on rejection (no
    [onSuccess] is registered), and [onSettled] runs last either way. *)
Definition mutate (username id : string) (st : Client)
  : Client * option ProfileData :=
  let '(st, context) := onMutate username st in
  (emit (LikeRequest id) st, context).

Inductive Settlement : Type :=
  | Resolved
  | Rejected.

Definition settle (username : string) (profileData : option ProfileData)
    (r : Settlement) (st : Client) : Client :=
  match r with
  | Resolved => onSettled username st
  | Rejected => onSettled username (onError username profileData st)
  end.

Inductive AuthStatus : Type :=
  | authenticated
  | loading
  | unauthenticated.

(** The like button's [onClick]. *)
Definition onClick (authStatus : AuthStatus) (username : string)
    (profileData : option ProfileData) (st : Client)
  : Client * option ProfileData :=
  match authStatus with
  | authenticated =>
      let st := emit (SetLikeAnimation true) st in
      match profileData with
      | Some p =>
          if Js.truthy (Some (id p)) then mutate username (id p) st
          else (st, None)
      | None => (st, None)
      end
  | _ => (emit (Push "/login") st, None)
  end.

(** A toggle that the server rejects, from click to settlement;
    [rendered] is the prop of the render whose [onError] runs. *)
Definition failed_toggle (username id : string)
    (rendered : option ProfileData) (st : Client) : Client :=
  settle username rendered Rejected (mutate username id st).1.

(** Fixture: a profile with the given flag and count. *)
Definition profile_of (liked : bool) (count : Z) : ProfileData :=
  {| id := "u1"; username := "alice"; image := None; tagline := Some "hi";
     admin := false; verified := true; imageCount := 3; likeCount := count;
     authUserHasLiked := liked; links := [] |}.

Definition client_of (c : gmap string ProfileData) : Client :=
  {| cache := c; log := [] |}.

End Like.

(** ** Profile settings page ([src/pages/settings/profile.tsx]) *)
Module Settings.

(** [EditProfileInput]: both fields are optional in the handler's tests. *)
Record EditProfileInput : Type := {
  username : option string;
  tagline : option string;
}.

(** [session.user]. *)
Record SessionUser : Type := {
  user_id : string;
  user_username : string;
  user_image : option string;
}.

(** The staged [File] object. *)
Record File : Type := {
  bytes : string;
}.

(** What a closure of the page reads when it runs: the staged [file]
    ([null] when none is), the form's current [getValues()], and the
    [session]. *)
Record View : Type := {
  file : option File;
  getValues : EditProfileInput;
  session : option SessionUser;
}.

Inductive Effect : Type :=
  | SetLoading (b : bool)
  | CallSetImage                                (* setImage() *)
  | CallEditProfile (input : EditProfileInput)  (* mutate({ username, tagline }) *)
  | AxiosPut (url : string) (body : option File)
  | Update                                      (* update() of useSession *)
  | Push (path : string)
  | ToastError (message : string).

(** Requests whose answer the page is still waiting for. *)
Inductive Pending : Type :=
  | PSetImage
  | PPut
  | PEditProfile.

#[global] Instance File_eq_dec : EqDecision File.
Proof. solve_decision. Defined.
#[global] Instance EditProfileInput_eq_dec : EqDecision EditProfileInput.
Proof. solve_decision. Defined.
#[global] Instance Effect_eq_dec : EqDecision Effect.
Proof. solve_decision. Defined.
#[global] Instance Pending_eq_dec : EqDecision Pending.
Proof. solve_decision. Defined.

Record Page : Type := {
  loading : bool;
  inflight : list Pending;
  trace : list Effect;
}.

Definition idle : Page := {| loading := false; inflight := []; trace := [] |}.

Definition emit (e : Effect) (p : Page) : Page :=
  {| loading := loading p; inflight := inflight p; trace := trace p ++ [e] |}.

Definition setLoading (b : bool) (p : Page) : Page :=
  {| loading := b; inflight := inflight p; trace := trace p ++ [SetLoading b] |}.

(** Issue a request: it is logged and is in flight from now on. *)
Definition issue (e : Effect) (k : Pending) (p : Page) : Page :=
  {| loading := loading p; inflight := inflight p ++ [k];
     trace := trace p ++ [e] |}.

(** [x && x.length], as a condition. *)
Definition has_length (x : option string) : bool :=
  match x with
  | Some s => if Js.truthy (Some s) then negb (String.length s =? 0)%nat else false
  | None => false
  end.

(** [handleFormSubmit({ username, tagline })]: nothing is awaited, the
    body runs to its end in one turn of the event loop. *)
Definition handleFormSubmit (v : View) (input : EditProfileInput) (p : Page)
  : Page :=
  let p := setLoading true p in
  let p := if bool_decide (is_Some (file v))
           then issue CallSetImage PSetImage p else p in
  if has_length (username input) || has_length (tagline input)
  then issue (CallEditProfile input) PEditProfile p
  else setLoading false p.

(** Modelled from the spec: [handleErrors] of [utils/handle-errors.util],
    which is not among the sources. Section 7: the error becomes a
    user-visible toast plus a local state reset, the reset being [fn]. *)
Definition handleErrors (message : string) (fn : Page → Page) (p : Page)
  : Page :=
  fn (emit (ToastError message) p).

(** [editProfile]'s [onSuccess(data)]. *)
Definition editProfile_onSuccess (data_username : string) (p : Page) : Page :=
  let p := emit Update p in
  emit (Push ("/" +:+ data_username)) p.

Definition editProfile_onError (p : Page) : Page :=
  handleErrors "Failed to edit profile!" (setLoading false) p.

(** [setImage]'s [onSuccess(result)] up to its [await]: the transfer is
    started. *)
Definition setImage_onSuccess (v : View) (result : string) (p : Page) : Page :=
  issue (AxiosPut result (file v)) PPut p.

(** ... and after the [await], once the transfer has succeeded. *)
Definition setImage_onSuccess_resume (v : View) (p : Page) : Page :=
  if negb (Js.truthy (username (getValues v)))
     && negb (Js.truthy (username (getValues v)))
  then
    let p := emit Update p in
    emit (Push ("/" +:+ Js.interpolate (user_username <$> session v))) p
  else p.

Definition setImage_onError (p : Page) : Page :=
  handleErrors "Failed to set image!" (setLoading false) p.

(** Answers of the collaborators. *)
Inductive Delivery : Type :=
  | SetImageResolved (result : string)
  | SetImageRejected
  | PutResolved
  | PutRejected
  | EditProfileResolved (data_username : string)
  | EditProfileRejected.

Definition awaited (d : Delivery) : Pending :=
  match d with
  | SetImageResolved _ | SetImageRejected => PSetImage
  | PutResolved | PutRejected => PPut
  | EditProfileResolved _ | EditProfileRejected => PEditProfile
  end.

(** Remove the first occurrence of [k]; [None] when nothing of that kind is
    in flight. *)
Fixpoint take (k : Pending) (l : list Pending) : option (list Pending) :=
  match l with
  | [] => None
  | k' :: l' =>
      if bool_decide (k = k') then Some l'
      else cons k' <$> take k l'
  end.

(** The callback a delivery triggers. A transfer that rejects makes the
    [async onSuccess] of [setImage] reject, which the mutation library
    routes to the same mutation's [onError]. *)
Definition react (v : View) (d : Delivery) (p : Page) : Page :=
  match d with
  | SetImageResolved result => setImage_onSuccess v result p
  | SetImageRejected => setImage_onError p
  | PutResolved => setImage_onSuccess_resume v p
  | PutRejected => setImage_onError p
  | EditProfileResolved data_username => editProfile_onSuccess data_username p
  | EditProfileRejected => editProfile_onError p
  end.

(** One turn of the event loop: an answer arrives for a request that is in
    flight. *)
Definition deliver (v : View) (d : Delivery) (p : Page) : option Page :=
  rest ← take (awaited d) (inflight p);
  Some (react v d {| loading := loading p; inflight := rest; trace := trace p |}).

(** A schedule: the answers in the order they arrive, each with what the
    page's closures see at that moment. *)
Fixpoint run (schedule : list (View * Delivery)) (p : Page) : option Page :=
  match schedule with
  | [] => Some p
  | (v, d) :: schedule => p' ← deliver v d p; run schedule p'
  end.

(** Calls that reach a server. *)
Definition is_server_call (e : Effect) : bool :=
  match e with
  | CallSetImage | CallEditProfile _ | AxiosPut _ _ => true
  | _ => false
  end.

Definition is_edit_call (e : Effect) : bool :=
  match e with
  | CallEditProfile _ => true
  | _ => false
  end.

(** The effects the callback of a delivery appends to the trace. *)
Definition added (v : View) (d : Delivery) : list Effect :=
  match d with
  | SetImageResolved result => [AxiosPut result (file v)]
  | SetImageRejected | PutRejected =>
      [ToastError "Failed to set image!"; SetLoading false]
  | PutResolved =>
      if Js.truthy (username (getValues v)) then []
      else [Update;
            Push ("/" +:+ Js.interpolate (user_username <$> session v))]
  | EditProfileResolved data_username =>
      [Update; Push ("/" +:+ data_username)]
  | EditProfileRejected =>
      [ToastError "Failed to edit profile!"; SetLoading false]
  end.

(** Fixtures. *)
Definition avatar : File := {| bytes := "png" |}.

Definition bob : SessionUser :=
  {| user_id := "ck2"; user_username := "bob"; user_image := None |}.

Definition view_of (f : option File) (u t : option string) : View :=
  {| file := f; getValues := {| username := u; tagline := t |};
     session := Some bob |}.

End Settings.

(** ** Token and session callbacks ([src/server/auth.ts]) *)
Module Callbacks.

(** A binding that may be [undefined], [null], or an object. *)
Inductive Ref : Type :=
  | Undefined
  | Null
  | Obj (o : gmap string Js.value).

(** The token: its [user] property, and its other claims. *)
Record JWT : Type := {
  token_user : Ref;
  token_claims : gmap string Js.value;
}.

(** The session: its [user] property, and its expiry. *)
Record Session : Type := {
  session_user : Ref;
  expires : string;
}.

(** [typeof user !== typeof undefined]. *)
Definition is_defined (r : Ref) : bool :=
  match r with
  | Undefined => false
  | Null | Obj _ => true
  end.

(** The truthiness [token?.user && ...] tests. *)
Definition truthy (r : Ref) : bool :=
  match r with
  | Obj _ => true
  | Undefined | Null => false
  end.

(** [jwt: async ({ token, user })]. *)
Definition jwt (token : JWT) (user : Ref) : JWT :=
  if is_defined user
  then {| token_user := user; token_claims := token_claims token |}
  else token.

(** [session: async ({ session, token })]. *)
Definition session (s : Session) (token : JWT) : Session :=
  if truthy (token_user token)
  then {| session_user := token_user token; expires := expires s |}
  else s.

(** The token after [n] further calls of [jwt] without a user, as every
    read and refresh of the session after the sign-in makes. *)
Fixpoint refreshed (n : nat) (token : JWT) : JWT :=
  match n with
  | O => token
  | S n => refreshed n (jwt token Undefined)
  end.

(** A field of the session's user, as [data?.user.field] reads it. *)
Definition user_field (s : Session) (field : string) : option Js.value :=
  match session_user s with
  | Obj o => o !! field
  | Undefined | Null => None
  end.

Definition blank_token : JWT :=
  {| token_user := Undefined; token_claims := {["sub" := Js.VStr "ck1"]} |}.

Definition blank_session : Session :=
  {| session_user := Obj {["email" := Js.VStr "a@x.com"]};
     expires := "2026-12-02T00:00:00.000Z" |}.

End Callbacks.

(** ** Text of a profile link ([src/components/ProfileCard.tsx]) *)
Module LinkText.

(** [\w]: an ASCII letter, a digit or the underscore. *)
Definition is_word (a : ascii) : bool :=
  let n := nat_of_ascii a in
  (Nat.leb 48 n && Nat.leb n 57) || (Nat.leb 65 n && Nat.leb n 90)
  || Nat.eqb n 95 || (Nat.leb 97 n && Nat.leb n 122).

(** The longest run of word characters at the start, and what follows. *)
Fixpoint span_word (s : string) : string * string :=
  match s with
  | EmptyString => ("", "")
  | String a s' =>
      if is_word a
      then let '(w, r) := span_word s' in (String a w, r)
      else ("", s)
  end.

(** [s] without the prefix [p], when it starts with it. *)
Fixpoint strip_prefix (p s : string) : option string :=
  match p, s with
  | EmptyString, _ => Some s
  | String a p', String b s' =>
      if Ascii.eqb a b then strip_prefix p' s' else None
  | String _ _, EmptyString => None
  end.

(** [.replace(/(^\w+:|^)\/\//, '')]: both alternatives are anchored at
    the start, so at most a leading [scheme://] or a leading [//] goes. *)
Definition strip_scheme (url : string) : string :=
  let '(w, r) := span_word url in
  match w, strip_prefix "://" r with
  | String _ _, Some rest => rest
  | _, _ => default url (strip_prefix "//" url)
  end.

(** [.replace(/\/$/, '')]: one slash at the very end goes. *)
Fixpoint strip_slash (s : string) : string :=
  match s with
  | EmptyString => ""
  | String a s' =>
      match s' with
      | EmptyString => if Ascii.eqb a "/" then "" else s
      | String _ _ => String a (strip_slash s')
      end
  end.

(** The text shown for [link.url]. *)
Definition link_text (url : string) : string :=
  strip_slash (strip_scheme url).

(** Every character of [s] is a word character. *)
Fixpoint all_word (s : string) : bool :=
  match s with
  | EmptyString => true
  | String a s' => is_word a && all_word s'
  end.

End LinkText.

(** ** Post modal ([src/components/ProfilePostModal.tsx]) *)
Module PostModal.

(** [s.split(c)] for a one-character separator. *)
Fixpoint split (c : ascii) (s : string) : list string :=
  match s with
  | EmptyString => [""]
  | String a s' =>
      if Ascii.eqb a c then "" :: split c s'
      else match split c s' with
           | piece :: pieces => String a piece :: pieces
           | [] => [String a ""]
           end
  end.

(** The path [closeModal] pushes: [asPath.split('?')[0] ?? '/']. *)
Definition closeModal (asPath : string) : string :=
  default "/" (split "?" asPath !! 0%nat).

Fixpoint occurs (c : ascii) (s : string) : bool :=
  match s with
  | EmptyString => false
  | String a s' => Ascii.eqb a c || occurs c s'
  end.

(** [session.user] as the modal reads it: its [id], and whether its
    [admin] property is truthy. *)
Record Viewer : Type := {
  viewer_id : string;
  viewer_admin : bool;
}.

Inductive Item : Type :=
  | Share
  | Report
  | DeleteOwn      (* handleDeleteUserPost *)
  | DeleteAdmin.   (* handleDeletePost *)

#[global] Instance Item_eq_dec : EqDecision Item.
Proof. solve_decision. Defined.

(** [data?.user.id === user?.id]: two absent values are equal. *)
Definition userIsProfileOwner (data : option Viewer)
    (user : option Like.ProfileData) : bool :=
  bool_decide (viewer_id <$> data = Like.id <$> user).

(** The entries of the menu, in order; nothing is rendered while the post
    or the user is missing. [post] is the post's id. *)
Definition menu (data : option Viewer) (post : option string)
    (user : option Like.ProfileData) : option (list Item) :=
  match post, user with
  | Some _, Some _ =>
      Some ([Share]
            ++ (if bool_decide (is_Some data) then [Report] else [])
            ++ (if userIsProfileOwner data user then [DeleteOwn] else [])
            ++ (if default false (viewer_admin <$> data)
                then [DeleteAdmin] else []))
  | _, _ => None
  end.

(** ASCII case mapping, as [toLowerCase] and [toUpperCase] act on the
    names of post types. *)
Definition to_lower (a : ascii) : ascii :=
  let n := nat_of_ascii a in
  if Nat.leb 65 n && Nat.leb n 90 then ascii_of_nat (n + 32) else a.

Definition to_upper (a : ascii) : ascii :=
  let n := nat_of_ascii a in
  if Nat.leb 97 n && Nat.leb n 122 then ascii_of_nat (n - 32) else a.

Fixpoint toLowerCase (s : string) : string :=
  match s with
  | EmptyString => ""
  | String a s' => String (to_lower a) (toLowerCase s')
  end.

(** [.replace(/\b\w/g, l => l.toUpperCase())]: a word character is
    upper-cased when no word character precedes it. *)
Fixpoint capitalize (after_word : bool) (s : string) : string :=
  match s with
  | EmptyString => ""
  | String a s' =>
      String (if LinkText.is_word a && negb after_word then to_upper a else a)
        (capitalize (LinkText.is_word a) s')
  end.

(** The heading shown for [post.type]. *)
Definition heading (type : string) : string :=
  capitalize false (toLowerCase type).

End PostModal.

(** ** Chains of answers on the settings page *)
Module Chain.

(** How many answers a request in flight can still bring: the answer to
    [setImage] may start a transfer, which is answered in turn. *)
Definition weight (k : Settings.Pending) : nat :=
  match k with
  | Settings.PSetImage => 2
  | Settings.PPut | Settings.PEditProfile => 1
  end.

Definition total_weight (l : list Settings.Pending) : nat :=
  foldr (λ k n, weight k + n) 0 l.

Definition is_rejection (d : Settings.Delivery) : bool :=
  match d with
  | Settings.SetImageRejected | Settings.PutRejected
  | Settings.EditProfileRejected => true
  | _ => false
  end.

(** All the effects the callbacks of a schedule append. *)
Definition effects (schedule : list (Settings.View * Settings.Delivery))
  : list Settings.Effect :=
  concat (map (λ x, Settings.added x.1 x.2) schedule).

(** Every [push] comes right after an [update()]. *)
Fixpoint refreshed_first (after_update : bool) (l : list Settings.Effect)
  : bool :=
  match l with
  | [] => true
  | Settings.Push _ :: l' => after_update && refreshed_first false l'
  | Settings.Update :: l' => refreshed_first true l'
  | _ :: l' => refreshed_first false l'
  end.

(** Fixture: a file is staged, the username is left empty and a tagline
    is typed; every call succeeds. *)
Definition demo_view : Settings.View :=
  Settings.view_of (Some Settings.avatar) None (Some "hello").

Definition demo_schedule : list (Settings.View * Settings.Delivery) :=
  [ (demo_view, Settings.SetImageResolved "https://bucket/put");
    (demo_view, Settings.PutResolved);
    (demo_view, Settings.EditProfileResolved "bob") ].

Definition demo_final : Settings.Page :=
  {| Settings.loading := true;
     Settings.inflight := [];
     Settings.trace :=
       [ Settings.SetLoading true; Settings.CallSetImage;
         Settings.CallEditProfile (Settings.getValues demo_view);
         Settings.AxiosPut "https://bucket/put" (Some Settings.avatar);
         Settings.Update; Settings.Push "/bob";
         Settings.Update; Settings.Push "/bob" ] |}.

End Chain.

(** * Properties *)

(** ** JavaScript conditions *)

Lemma truthy_Some_iff (x : option string) :
  Js.truthy x = true ↔ ∃ s, x = Some s ∧ s ≠ "".
Proof.
  destruct x as [s|]; simpl.
  - rewrite negb_true_iff. split.
    + intros H. exists s. split; [done|]. intros ->. by rewrite String.eqb_refl in H.
    + intros (s' & [= <-] & Hne). by apply String.eqb_neq.
  - split; [done|]. by intros (s & ? & _).
Qed.

Lemma truthy_false_iff (x : option string) :
  Js.truthy x = false ↔ Js.empty x.
Proof.
  unfold Js.empty. destruct x as [s|]; simpl.
  - rewrite negb_false_iff, String.eqb_eq. split.
    + intros ->. by right.
    + by intros [|[= ->]].
  - split; [by left | done].
Qed.

(** ** Credential authentication *)

Section AuthFacts.

Import Auth.

Variable findUnique : option string → option UserRow.
Variable compare : string → string → bool.

Lemma passwordMatches_accepted user credentials :
  accepted compare user credentials →
  ∃ plain hash,
    passwordMatches compare user credentials
    = ([BcryptCompare plain hash], inr true).
Proof.
  intros (plain & hash & Hh & Hne & Hp & Hpne & Hc).
  exists plain, hash. unfold passwordMatches. rewrite Hh, Hp. simpl.
  apply String.eqb_neq in Hne, Hpne. rewrite Hne, Hpne. simpl.
  unfold await_compare. by rewrite Hc.
Qed.

Lemma passwordMatches_true user credentials l :
  passwordMatches compare user credentials = (l, inr true) →
  accepted compare user credentials.
Proof.
  unfold passwordMatches, accepted.
  destruct (password user) as [hash|] eqn:Hh; [|by inversion 1].
  destruct (Js.truthy (Some hash)) eqn:Ht; [|by inversion 1].
  destruct (credentials ≫= c_password) as [plain|] eqn:Hp; [|by inversion 1].
  destruct (Js.truthy (Some plain)) eqn:Htp; [|by inversion 1].
  unfold await_compare. intros [= _ Hc].
  apply truthy_Some_iff in Ht as (h & [= <-] & ?).
  apply truthy_Some_iff in Htp as (q & [= <-] & ?).
  by exists plain, hash.
Qed.

Lemma passwordMatches_total user credentials :
  ∃ l b, passwordMatches compare user credentials = (l, inr b).
Proof.
  unfold passwordMatches.
  destruct (password user) as [hash|]; [|by eexists _, _].
  destruct (Js.truthy (Some hash)); [|by eexists _, _].
  destruct (credentials ≫= c_password) as [plain|]; [|by eexists _, _].
  destruct (Js.truthy (Some plain)); by eexists _, _.
Qed.

Lemma authorize_found user credentials :
  findUnique (credentials ≫= c_email) = Some user →
  authorize findUnique compare credentials
  = let '(l, r) := passwordMatches compare user credentials in
    (FindUnique (credentials ≫= c_email) :: l,
     match r with
     | inl e => inl e
     | inr ok => if negb ok then inl "Password does not match"
                 else inr (public_identity user)
     end).
Proof.
  unfold authorize, await_findUnique.
  generalize (credentials ≫= c_email). intros email Hu.
  unfold mbind, Async_bind. cbv beta iota. rewrite Hu.
  destruct (passwordMatches compare user credentials) as [l [e|[|]]];
    simpl; by rewrite ?app_nil_r.
Qed.

Lemma authorize_not_found credentials :
  findUnique (credentials ≫= c_email) = None →
  authorize findUnique compare credentials
  = ([FindUnique (credentials ≫= c_email)], inl "No user found").
Proof.
  unfold authorize, await_findUnique.
  generalize (credentials ≫= c_email). intros email Hu.
  unfold mbind, Async_bind. cbv beta iota. by rewrite Hu.
Qed.

(** An empty supplied password counts as absent: the comparison is not
    reached, whatever it would answer. *)
Lemma passwordMatches_empty_password user email :
  passwordMatches compare user
    (Some {| c_email := email; c_password := Some "" |})
  = ([], inr false).
Proof.
  unfold passwordMatches.
  destruct (password user) as [hash|]; [|reflexivity].
  destruct (Js.truthy (Some hash)); reflexivity.
Qed.

Lemma public_identity_dom user :
  dom (public_identity user) = ({["id"; "username"; "image"]} : gset string).
Proof.
  unfold public_identity. rewrite !dom_insert_L, dom_empty_L. set_solver.
Qed.

(** C4. When no stored identity matches the email of the credentials,
    [authorize] throws "No user found" after the lookup alone: the
    password hash comparison is never invoked. *)
Theorem authorize_no_user credentials :
  findUnique (credentials ≫= c_email) = None →
  outcome (authorize findUnique compare credentials) = inl "No user found"
  ∧ calls (authorize findUnique compare credentials)
    = [FindUnique (credentials ≫= c_email)]
  ∧ ∀ plain hash,
      BcryptCompare plain hash
      ∉ calls (authorize findUnique compare credentials).
Proof.
  intros Hu. rewrite (authorize_not_found _ Hu). unfold outcome, calls. simpl.
  repeat split. intros plain hash Hin.
  apply list_elem_of_singleton in Hin. discriminate.
Qed.

(** C5. When the email matches a stored identity, [authorize] succeeds
    if and only if the stored hash is present, the supplied password is
    present and the comparison returns true; in every other case it
    throws "Password does not match". Present means what the [&&] chain
    tests: neither absent nor the empty string. *)
Theorem authorize_iff_accepted user credentials :
  findUnique (credentials ≫= c_email) = Some user →
  ((∃ r, outcome (authorize findUnique compare credentials) = inr r)
   ↔ accepted compare user credentials)
  ∧ (¬ accepted compare user credentials →
     outcome (authorize findUnique compare credentials)
     = inl "Password does not match").
Proof.
  intros Hu. rewrite (authorize_found _ _ Hu).
  destruct (passwordMatches_total user credentials) as (l & b & Hpm).
  rewrite Hpm. unfold outcome. simpl. destruct b; simpl.
  - pose proof (passwordMatches_true _ _ _ Hpm) as Hacc.
    split; [split; [done | by eexists] | done].
  - assert (¬ accepted compare user credentials) as Hn.
    { intros Hacc.
      destruct (passwordMatches_accepted _ _ Hacc) as (p & h & Heq).
      congruence. }
    split; [split; [by intros [r ?] | done] | done].
Qed.

(** C6. Whenever [authorize] succeeds, the object it returns is the
    projection of the matched record onto [id], [username] and [image]:
    it has exactly these three fields, with the record's values, and no
    [password] field. *)
Theorem authorize_returns_projection credentials r :
  outcome (authorize findUnique compare credentials) = inr r →
  ∃ user,
    findUnique (credentials ≫= c_email) = Some user
    ∧ dom r = ({["id"; "username"; "image"]} : gset string)
    ∧ r !! "id" = Some (Js.VStr (id user))
    ∧ r !! "username" = Some (Js.VStr (username user))
    ∧ r !! "image" = Some (Js.of_nullable (image user))
    ∧ r !! "password" = None.
Proof.
  destruct (findUnique (credentials ≫= c_email)) as [user|] eqn:Hu.
  - rewrite (authorize_found _ _ Hu).
    destruct (passwordMatches_total user credentials) as (l & b & ->).
    unfold outcome. simpl. destruct b; simpl; [|done].
    intros [= <-]. exists user. split; [done|].
    split; [apply public_identity_dom|].
    unfold public_identity. by simplify_map_eq.
  - rewrite (authorize_not_found _ Hu). unfold outcome. simpl. discriminate.
Qed.

End AuthFacts.

Lemma authorize_no_user_witness :
  Auth.findUnique_in Auth.demo_db (Some "nobody@x.com") = None
  ∧ Auth.outcome (Auth.demo_authorize "nobody@x.com" "correct")
    = inl "No user found"
  ∧ Auth.calls (Auth.demo_authorize "nobody@x.com" "correct")
    = [Auth.FindUnique (Some "nobody@x.com")].
Proof.
  split; [reflexivity|].
  pose proof (authorize_no_user (Auth.findUnique_in Auth.demo_db)
                Auth.demo_compare
                (Some {| Auth.c_email := Some "nobody@x.com";
                         Auth.c_password := Some "correct" |})
                eq_refl) as (Ho & Hc & _).
  exact (conj Ho Hc).
Defined.

Lemma authorize_iff_accepted_witness :
  Auth.findUnique_in Auth.demo_db (Some "a@x.com") = Some Auth.alice
  ∧ (∃ r, Auth.outcome (Auth.demo_authorize "a@x.com" "correct") = inr r)
  ∧ Auth.outcome (Auth.demo_authorize "a@x.com" "wrong")
    = inl "Password does not match".
Proof.
  split; [reflexivity|]. split.
  - apply (authorize_iff_accepted (Auth.findUnique_in Auth.demo_db)
             Auth.demo_compare Auth.alice
             (Some {| Auth.c_email := Some "a@x.com";
                      Auth.c_password := Some "correct" |}) eq_refl).
    exists "correct", "$2b$10$stored". repeat split; discriminate.
  - apply (authorize_iff_accepted (Auth.findUnique_in Auth.demo_db)
             Auth.demo_compare Auth.alice
             (Some {| Auth.c_email := Some "a@x.com";
                      Auth.c_password := Some "wrong" |}) eq_refl).
    intros (plain & hash & _ & _ & [= <-] & _ & Hc). discriminate Hc.
Defined.

Lemma authorize_returns_projection_witness :
  Auth.outcome (Auth.demo_authorize "a@x.com" "correct")
  = inr (Auth.public_identity Auth.alice)
  ∧ Auth.public_identity Auth.alice !! "password" = None
  ∧ Auth.public_identity Auth.alice !! "username" = Some (Js.VStr "alice").
Proof.
  assert (Auth.outcome (Auth.demo_authorize "a@x.com" "correct")
          = inr (Auth.public_identity Auth.alice)) as H by reflexivity.
  split; [exact H|].
  destruct (authorize_returns_projection _ _ _ _ H)
    as (user & Hu & _ & _ & Hn & _ & Hp).
  injection Hu as <-. exact (conj Hp Hn).
Defined.

(** ** Optimistic like toggle *)

Section LikeFacts.

Import Like.

Lemma mutate_found username id st p :
  getData username st = Some p →
  mutate username id st
  = ({| cache := <[username := optimistic p]> (cache st);
        log := log st ++ [Cancel username; LikeRequest id] |},
     Some p).
Proof.
  unfold getData, mutate, onMutate, getData, setData, emit. simpl.
  intros ->. simpl. by rewrite <- app_assoc.
Qed.

Lemma mutate_missing username id st :
  getData username st = None →
  mutate username id st
  = ({| cache := cache st;
        log := log st ++ [Cancel username; LikeRequest id] |},
     None).
Proof.
  unfold getData, mutate, onMutate, getData, emit. simpl.
  intros ->. simpl. by rewrite <- app_assoc.
Qed.

(** The snapshot handed to the life cycle as context is the entry read
    before the optimistic write. *)
Lemma onMutate_snapshot username st :
  (onMutate username st).2 = getData username st.
Proof.
  unfold onMutate, getData, emit. simpl. by destruct (cache st !! username).
Qed.

Lemma optimistic_neq p : optimistic p ≠ p.
Proof.
  intros H. apply (f_equal authUserHasLiked) in H. simpl in H.
  by destruct (authUserHasLiked p).
Qed.

(** After a rejected toggle the entry is whatever [onError] wrote from
    the prop, or the optimistic value when the prop is absent. *)
Lemma failed_toggle_entry username id rendered st s :
  getData username st = Some s →
  getData username (failed_toggle username id rendered st)
  = Some match rendered with
         | Some p => with_like p (negb (authUserHasLiked p)) (likeCount p)
         | None => optimistic s
         end.
Proof.
  intros Hs. unfold failed_toggle. rewrite (mutate_found _ _ _ _ Hs).
  unfold settle, onSettled, onError, handleErrors, onError_fn, getData.
  destruct rendered as [p|]; simpl; by rewrite lookup_insert_eq.
Qed.

(** Whether the closure that runs saw the entry from before the click,
    the optimistic entry, or none, a rejected toggle does not leave the
    snapshot in the cache. *)
Lemma failed_toggle_never_restores username id rendered st s :
  getData username st = Some s →
  rendered = None ∨ rendered = Some s ∨ rendered = Some (optimistic s) →
  getData username (failed_toggle username id rendered st) ≠ Some s.
Proof.
  intros Hs Hr. rewrite (failed_toggle_entry _ _ _ _ _ Hs).
  intros [= H]. destruct Hr as [-> | [-> | ->]].
  - by apply optimistic_neq in H.
  - apply (f_equal authUserHasLiked) in H. simpl in H.
    by destruct (authUserHasLiked s).
  - apply (f_equal likeCount) in H. simpl in H.
    destruct (authUserHasLiked s); lia.
Qed.

(** C3. Starting from any cached entry [{liked, count}], [mutate] leaves
    the cache, before any answer of the server, with the flag negated and
    the count moved by one (up when it was not liked, down when it was);
    the other fields and the other entries are untouched. *)
Theorem mutate_optimistic username id st p :
  getData username st = Some p →
  getData username (mutate username id st).1
  = Some (with_like p (negb (authUserHasLiked p))
            (if authUserHasLiked p then likeCount p - 1
             else likeCount p + 1)%Z)
  ∧ (∀ other, other ≠ username →
       getData other (mutate username id st).1 = getData other st)
  ∧ log (mutate username id st).1
    = log st ++ [Cancel username; LikeRequest id].
Proof.
  intros Hp. rewrite (mutate_found _ _ _ _ Hp). unfold getData. simpl.
  split; [|split; [|done]].
  - rewrite lookup_insert_eq. unfold optimistic.
    by destruct (authUserHasLiked p).
  - intros other Hne. by rewrite lookup_insert_ne.
Qed.

(** C9. When the cache holds no entry for the username, [mutate] leaves
    the cache as it was and hands no snapshot to the life cycle, and the
    like request is sent all the same. *)
Theorem mutate_without_entry username id st :
  getData username st = None →
  cache (mutate username id st).1 = cache st
  ∧ (mutate username id st).2 = None
  ∧ LikeRequest id ∈ log (mutate username id st).1.
Proof.
  intros Hn. rewrite (mutate_missing _ _ _ Hn). simpl.
  split; [done|]. split; [done|]. set_solver.
Qed.

End LikeFacts.

Lemma mutate_optimistic_witness :
  let st := Like.client_of {["alice" := Like.profile_of false 5]} in
  Like.getData "alice" st = Some (Like.profile_of false 5)
  ∧ Like.getData "alice" (Like.mutate "alice" "u1" st).1
    = Some (Like.profile_of true 6).
Proof.
  assert (Like.getData "alice"
            (Like.client_of {["alice" := Like.profile_of false 5]})
          = Some (Like.profile_of false 5)) as H by reflexivity.
  split; [exact H|].
  exact (proj1 (mutate_optimistic "alice" "u1" _ _ H)).
Defined.

Lemma mutate_without_entry_witness :
  let st := Like.client_of {["bob" := Like.profile_of true 2]} in
  Like.getData "alice" st = None
  ∧ Like.cache (Like.mutate "alice" "u1" st).1 = Like.cache st
  ∧ Like.LikeRequest "u1" ∈ Like.log (Like.mutate "alice" "u1" st).1.
Proof.
  assert (Like.getData "alice"
            (Like.client_of {["bob" := Like.profile_of true 2]}) = None)
    as H by reflexivity.
  split; [exact H|].
  destruct (mutate_without_entry "alice" "u1" _ H) as (Hc & _ & Hl).
  exact (conj Hc Hl).
Defined.

(** C2. From [{liked: false, count: 5}], a toggle the server rejects: the
    entry read before the optimistic write is what [onMutate] returns, yet
    [onError] does not write it back. It negates the flag of the prop and
    keeps the prop's count, so the cache ends at [{false, 6}] when the prop
    is the optimistic entry, at [{true, 5}] when it is the entry from
    before the click, and at [{true, 6}] when there is no prop; never at
    [{false, 5}]. *)
Theorem failed_toggle_not_restored :
  let st := Like.client_of {["alice" := Like.profile_of false 5]} in
  (Like.mutate "alice" "u1" st).2 = Some (Like.profile_of false 5)
  ∧ Like.getData "alice" (Like.mutate "alice" "u1" st).1
    = Some (Like.profile_of true 6)
  ∧ Like.getData "alice"
      (Like.failed_toggle "alice" "u1" (Some (Like.profile_of true 6)) st)
    = Some (Like.profile_of false 6)
  ∧ Like.getData "alice"
      (Like.failed_toggle "alice" "u1" (Some (Like.profile_of false 5)) st)
    = Some (Like.profile_of true 5)
  ∧ Like.getData "alice" (Like.failed_toggle "alice" "u1" None st)
    = Some (Like.profile_of true 6).
Proof. repeat split; reflexivity. Qed.

(** ** Profile settings page *)

Section SettingsFacts.

Import Settings.

Lemma has_length_truthy x : has_length x = Js.truthy x.
Proof.
  destruct x as [[|a s]|]; reflexivity.
Qed.

Lemma has_length_empty x : Js.empty x → has_length x = false.
Proof. by intros [-> | ->]. Qed.

Lemma react_trace v d p : trace (react v d p) = trace p ++ added v d.
Proof.
  destruct d; simpl; rewrite <- ?app_assoc; try reflexivity.
  unfold setImage_onSuccess_resume.
  destruct (Js.truthy (username (getValues v))); simpl;
    by rewrite <- ?app_assoc, ?app_nil_r.
Qed.

Lemma added_no_edit_call v d : List.filter is_edit_call (added v d) = [].
Proof.
  destruct d; simpl; try reflexivity.
  by destruct (Js.truthy (username (getValues v))).
Qed.

Lemma deliver_trace v d p p' :
  deliver v d p = Some p' → trace p' = trace p ++ added v d.
Proof.
  unfold deliver. destruct (take (awaited d) (inflight p)) as [rest|];
    simpl; [|done].
  intros [= <-]. by rewrite react_trace.
Qed.

(** Answers only ever append to the trace, and never a profile-update
    call. *)
Lemma run_trace schedule : ∀ p final,
  run schedule p = Some final →
  ∃ rest, trace final = trace p ++ rest
          ∧ List.filter is_edit_call rest = [].
Proof.
  induction schedule as [|[v d] schedule IH]; intros p final; simpl.
  - intros [= <-]. exists []. by rewrite app_nil_r.
  - destruct (deliver v d p) as [p'|] eqn:Hd; simpl; [|done].
    intros Hrun. destruct (IH _ _ Hrun) as (rest & Ht & Hf).
    exists (added v d ++ rest). split.
    + by rewrite Ht, (deliver_trace _ _ _ _ Hd), <- app_assoc.
    + by rewrite List.filter_app, added_no_edit_call, Hf.
Qed.

Lemma run_nothing_inflight schedule p final :
  inflight p = [] → run schedule p = Some final → final = p.
Proof.
  destruct schedule as [|[v d] schedule]; simpl.
  - by intros _ [= <-].
  - unfold deliver. by intros ->.
Qed.

(** C7. With an empty username, an empty tagline and no staged file,
    [handleFormSubmit] only raises and lowers the loading flag: nothing
    is put in flight, no call reaches a server then or later in the
    chain, and the page is back to not loading. *)
Theorem handleFormSubmit_noop v input p :
  file v = None →
  Js.empty (username input) →
  Js.empty (tagline input) →
  handleFormSubmit v input p
  = {| loading := false; inflight := inflight p;
       trace := trace p ++ [SetLoading true; SetLoading false] |}
  ∧ ∀ schedule final,
      run schedule (handleFormSubmit v input idle) = Some final →
      List.filter is_server_call (trace final) = []
      ∧ inflight final = []
      ∧ loading final = false.
Proof.
  intros Hf Hu Ht.
  assert (∀ q, handleFormSubmit v input q
               = {| loading := false; inflight := inflight q;
                    trace := trace q ++ [SetLoading true; SetLoading false] |})
    as Heq.
  { intros q. unfold handleFormSubmit.
    rewrite Hf, (has_length_empty _ Hu), (has_length_empty _ Ht). simpl.
    unfold setLoading. simpl. by rewrite <- app_assoc. }
  split; [apply Heq|].
  intros schedule final Hrun. rewrite Heq in Hrun.
  apply run_nothing_inflight in Hrun as ->; done.
Qed.

(** C8. When the profile-update call succeeds, the page first calls
    [update()] to refresh the session and then pushes the profile URL
    built from the username the update returned; nothing else happens. *)
Theorem editProfile_success_update_then_push v data_username p p' :
  deliver v (EditProfileResolved data_username) p = Some p' →
  trace p' = trace p ++ [Update; Push ("/" +:+ data_username)]
  ∧ loading p' = loading p.
Proof.
  intros Hd. split; [apply (deliver_trace _ _ _ _ Hd)|].
  unfold deliver in Hd.
  destruct (take (awaited (EditProfileResolved data_username)) (inflight p));
    simpl in Hd; [|done].
  by injection Hd as <-.
Qed.

(** C10. When the transfer of the image has succeeded, the page takes
    the early exit (refresh the session, then navigate) exactly when the
    username field of the form is empty; the tagline field plays no part;
    and the path pushed is built from the username of the current
    session. *)
Theorem setImage_success_early_exit v p p' :
  deliver v PutResolved p = Some p' →
  (Js.empty (username (getValues v)) →
   trace p' = trace p
              ++ [Update;
                  Push ("/" +:+ Js.interpolate (user_username <$> session v))])
  ∧ (¬ Js.empty (username (getValues v)) → trace p' = trace p)
  ∧ ∀ t,
      deliver {| file := file v;
                 getValues := {| username := username (getValues v);
                                 tagline := t |};
                 session := session v |} PutResolved p = Some p'.
Proof.
  intros Hd. pose proof (deliver_trace _ _ _ _ Hd) as Ht. simpl in Ht.
  split; [|split].
  - intros He. apply truthy_false_iff in He. by rewrite He in Ht.
  - intros Hne. destruct (Js.truthy (username (getValues v))) eqn:E.
    + by rewrite app_nil_r in Ht.
    + by apply truthy_false_iff in E.
  - intros t. by rewrite <- Hd.
Qed.

(** C1, as the code has it. With a staged file, [handleFormSubmit]
    issues the upload-target request first and does not wait for it: when
    the username or the tagline is non-empty the profile-update call
    follows at once, before any answer, and no answer (a failed upload
    included) issues or withdraws one; when both are empty none is ever
    issued. A rejected upload-target request surfaces the error and
    lowers the loading flag. *)
Theorem handleFormSubmit_staged_file v input schedule final :
  is_Some (file v) →
  run schedule (handleFormSubmit v input idle) = Some final →
  (∃ rest,
     trace final
     = [SetLoading true; CallSetImage]
       ++ (if has_length (username input) || has_length (tagline input)
           then [CallEditProfile input] else [SetLoading false])
       ++ rest
     ∧ List.filter is_edit_call rest = [])
  ∧ ∀ v' q q',
      deliver v' SetImageRejected q = Some q' →
      trace q' = trace q ++ [ToastError "Failed to set image!";
                             SetLoading false]
      ∧ loading q' = false.
Proof.
  intros Hfile Hrun. split.
  - destruct (run_trace _ _ _ Hrun) as (rest & Ht & Hf).
    exists rest. split; [|done]. rewrite Ht. clear Ht Hrun.
    unfold handleFormSubmit. rewrite (bool_decide_eq_true_2 _ Hfile).
    destruct (has_length (username input) || has_length (tagline input));
      reflexivity.
  - intros v' q q' Hd. split; [apply (deliver_trace _ _ _ _ Hd)|].
    unfold deliver in Hd.
    destruct (take (awaited SetImageRejected) (inflight q));
      simpl in Hd; [|done].
    by injection Hd as <-.
Qed.

End SettingsFacts.

Lemma handleFormSubmit_noop_witness :
  let v := Settings.view_of None (Some "") None in
  Settings.file v = None
  ∧ Settings.handleFormSubmit v (Settings.getValues v) Settings.idle
    = {| Settings.loading := false; Settings.inflight := [];
         Settings.trace := [Settings.SetLoading true;
                            Settings.SetLoading false] |}.
Proof.
  split; [reflexivity|].
  exact (proj1 (handleFormSubmit_noop
                  (Settings.view_of None (Some "") None)
                  {| Settings.username := Some ""; Settings.tagline := None |}
                  Settings.idle eq_refl (or_intror eq_refl) (or_introl eq_refl))).
Defined.

Lemma editProfile_success_update_then_push_witness :
  let v := Settings.view_of None (Some "robert") None in
  let p := Settings.handleFormSubmit v (Settings.getValues v) Settings.idle in
  ∃ p', Settings.deliver v (Settings.EditProfileResolved "robert") p = Some p'
        ∧ Settings.trace p'
          = [Settings.SetLoading true;
             Settings.CallEditProfile (Settings.getValues v);
             Settings.Update; Settings.Push "/robert"].
Proof.
  eexists. split; [reflexivity|].
  exact (proj1 (editProfile_success_update_then_push
                  (Settings.view_of None (Some "robert") None) "robert"
                  (Settings.handleFormSubmit
                     (Settings.view_of None (Some "robert") None)
                     {| Settings.username := Some "robert";
                        Settings.tagline := None |} Settings.idle)
                  _ eq_refl)).
Defined.

Lemma setImage_success_early_exit_witness :
  let v := Settings.view_of (Some Settings.avatar) None (Some "hello") in
  let p := {| Settings.loading := true; Settings.inflight := [Settings.PPut];
              Settings.trace := [] |} in
  ∃ p', Settings.deliver v Settings.PutResolved p = Some p'
        ∧ Settings.trace p' = [Settings.Update; Settings.Push "/bob"].
Proof.
  eexists. split; [reflexivity|].
  exact (proj1 (setImage_success_early_exit
                  (Settings.view_of (Some Settings.avatar) None (Some "hello"))
                  {| Settings.loading := true;
                     Settings.inflight := [Settings.PPut];
                     Settings.trace := [] |}
                  _ eq_refl) (or_introl eq_refl)).
Defined.

Lemma handleFormSubmit_staged_file_witness :
  let v := Settings.view_of (Some Settings.avatar) (Some "robert") None in
  is_Some (Settings.file v)
  ∧ ∃ final,
      Settings.run [(v, Settings.SetImageRejected)]
        (Settings.handleFormSubmit v (Settings.getValues v) Settings.idle)
      = Some final
      ∧ ∃ rest,
          Settings.trace final
          = [Settings.SetLoading true; Settings.CallSetImage]
            ++ [Settings.CallEditProfile (Settings.getValues v)] ++ rest
          ∧ List.filter Settings.is_edit_call rest = [].
Proof.
  split; [by eexists|].
  eexists. split; [reflexivity|].
  refine (proj1 (handleFormSubmit_staged_file
                  (Settings.view_of (Some Settings.avatar) (Some "robert") None)
                  {| Settings.username := Some "robert";
                     Settings.tagline := None |}
                  [(Settings.view_of (Some Settings.avatar) (Some "robert") None,
                    Settings.SetImageRejected)]
                  _ (ex_intro _ Settings.avatar eq_refl) _)).
  reflexivity.
Defined.

(** C1, as stated, fails: with a file staged and the username "robert"
    submitted, the profile-update call is issued while the upload-target
    request is still unanswered, and it stays issued when that request is
    rejected; no byte was transferred. *)
Lemma handleFormSubmit_update_despite_failed_upload :
  let v := Settings.view_of (Some Settings.avatar) (Some "robert") None in
  let input := Settings.getValues v in
  let p := Settings.handleFormSubmit v input Settings.idle in
  Settings.trace p
  = [Settings.SetLoading true; Settings.CallSetImage;
     Settings.CallEditProfile input]
  ∧ Settings.inflight p = [Settings.PSetImage; Settings.PEditProfile]
  ∧ Settings.run [(v, Settings.SetImageRejected)] p
    = Some {| Settings.loading := false;
              Settings.inflight := [Settings.PEditProfile];
              Settings.trace :=
                [Settings.SetLoading true; Settings.CallSetImage;
                 Settings.CallEditProfile input;
                 Settings.ToastError "Failed to set image!";
                 Settings.SetLoading false] |}.
Proof. repeat split; reflexivity. Qed.

(** * Further properties *)

(* [naive_solver] clears hypotheses it has already used. *)
Set Warnings "-clear-no-such-hyp".

(** ** Credential authentication and the session built from it *)

Section AuthMore.

Import Auth.

Variable findUnique : option string → option UserRow.
Variable compare : string → string → bool.

Lemma passwordMatches_calls user credentials :
  (passwordMatches compare user credentials).1 = []
  ∨ ∃ plain hash,
      password user = Some hash
      ∧ credentials ≫= c_password = Some plain
      ∧ (passwordMatches compare user credentials).1
        = [BcryptCompare plain hash].
Proof.
  unfold passwordMatches.
  destruct (password user) as [hash|]; [|by left].
  destruct (Js.truthy (Some hash)); [|by left].
  destruct (credentials ≫= c_password) as [plain|]; [|by left].
  destruct (Js.truthy (Some plain)); [|by left].
  right. by exists plain, hash.
Qed.

Lemma passwordMatches_no_secret user credentials :
  Js.empty (password user) ∨ Js.empty (credentials ≫= c_password) →
  passwordMatches compare user credentials = ([], inr false).
Proof.
  unfold passwordMatches. intros [He | He].
  - by destruct He as [-> | ->].
  - destruct (password user) as [hash|]; [|done].
    destruct (Js.truthy (Some hash)); [|done].
    by destruct He as [-> | ->].
Qed.

Lemma authorize_success credentials r :
  outcome (authorize findUnique compare credentials) = inr r →
  ∃ user,
    findUnique (credentials ≫= c_email) = Some user
    ∧ r = public_identity user.
Proof.
  destruct (findUnique (credentials ≫= c_email)) as [user|] eqn:Hu.
  - rewrite (authorize_found _ _ _ _ Hu).
    destruct (passwordMatches compare user credentials) as [l [e|[|]]];
      unfold outcome; simpl; [done | | done].
    intros [= <-]. by exists user.
  - by rewrite (authorize_not_found _ _ _ Hu).
Qed.

(** X1. The lookup is made exactly once and first; the comparison is made at
    most once, after it, on the supplied password and the stored hash of
    the row the lookup returned. *)
Theorem authorize_call_order credentials :
  calls (authorize findUnique compare credentials)
  = [FindUnique (credentials ≫= c_email)]
  ∨ ∃ user plain hash,
      findUnique (credentials ≫= c_email) = Some user
      ∧ password user = Some hash
      ∧ credentials ≫= c_password = Some plain
      ∧ calls (authorize findUnique compare credentials)
        = [FindUnique (credentials ≫= c_email); BcryptCompare plain hash].
Proof.
  destruct (findUnique (credentials ≫= c_email)) as [user|] eqn:Hu.
  - rewrite (authorize_found _ _ _ _ Hu).
    destruct (passwordMatches_calls user credentials)
      as [Hl | (plain & hash & Hh & Hp & Hl)];
      destruct (passwordMatches compare user credentials) as [l r];
      simpl in Hl; subst l; unfold calls; simpl.
    + by left.
    + right. by exists user, plain, hash.
  - left. by rewrite (authorize_not_found _ _ _ Hu).
Qed.

(** X2. When the matched row stores no hash, or none was supplied (absent or
    empty either way), [authorize] throws "Password does not match"
    without calling the comparison. *)
Theorem authorize_without_secret user credentials :
  findUnique (credentials ≫= c_email) = Some user →
  Js.empty (password user) ∨ Js.empty (credentials ≫= c_password) →
  authorize findUnique compare credentials
  = ([FindUnique (credentials ≫= c_email)], inl "Password does not match").
Proof.
  intros Hu He. rewrite (authorize_found _ _ _ _ Hu).
  by rewrite (passwordMatches_no_secret _ _ He).
Qed.

End AuthMore.

Lemma authorize_without_secret_witness :
  Auth.demo_authorize "a@x.com" ""
  = ([Auth.FindUnique (Some "a@x.com")], inl "Password does not match").
Proof.
  exact (authorize_without_secret (Auth.findUnique_in Auth.demo_db)
           Auth.demo_compare Auth.alice
           (Some {| Auth.c_email := Some "a@x.com";
                    Auth.c_password := Some "" |})
           eq_refl (or_intror (or_intror eq_refl))).
Defined.

Section CallbackFacts.

Import Callbacks.

Lemma jwt_undefined token : jwt token Undefined = token.
Proof. reflexivity. Qed.

Lemma refreshed_id n : ∀ token, refreshed n token = token.
Proof. induction n as [|n IH]; intros token; simpl; [done | apply IH]. Qed.

(** X3. After a sign-in that hands the object [o] to [jwt], the session
    carries [o] as its user, with its expiry untouched, and goes on
    carrying it however many times [jwt] runs again without a user: no
    later call replaces what was stored at sign-in. *)
Theorem session_keeps_sign_in_user s token o n :
  session s (refreshed n (jwt token (Obj o)))
  = {| session_user := Obj o; expires := expires s |}.
Proof. by rewrite refreshed_id. Qed.

(** X4. A token that never saw a user leaves the session as it was handed to
    the callback, and a [null] user is stored in the token but never
    reaches the session. *)
Theorem session_without_user s token n :
  token_user token = Undefined →
  session s (refreshed n token) = s
  ∧ token_user (jwt token Null) = Null
  ∧ session s (jwt token Null) = s.
Proof.
  intros Hu. rewrite refreshed_id. unfold session. by rewrite Hu.
Qed.

(** X5. The session built from a successful [authorize] exposes the matched
    record's [id], [username] and [image] and nothing else of it: reading
    [password] or [admin] from its user gives [undefined]. *)
Theorem session_of_authorize findUnique compare credentials r s token n :
  Auth.outcome (Auth.authorize findUnique compare credentials) = inr r →
  ∃ user,
    findUnique (credentials ≫= Auth.c_email) = Some user
    ∧ ∀ field,
        user_field (session s (refreshed n (jwt token (Obj r)))) field
        = if bool_decide (field = "id") then Some (Js.VStr (Auth.id user))
          else if bool_decide (field = "username")
               then Some (Js.VStr (Auth.username user))
          else if bool_decide (field = "image")
               then Some (Js.of_nullable (Auth.image user))
          else None.
Proof.
  intros Hr. destruct (authorize_success _ _ _ _ Hr) as (user & Hu & ->).
  exists user. split; [done|]. intros field.
  rewrite refreshed_id. unfold user_field, session, jwt. simpl.
  unfold Auth.public_identity.
  repeat case_bool_decide; simplify_map_eq; done.
Qed.

End CallbackFacts.

Lemma session_without_user_witness :
  Callbacks.session Callbacks.blank_session
    (Callbacks.refreshed 3 Callbacks.blank_token)
  = Callbacks.blank_session.
Proof.
  exact (proj1 (session_without_user Callbacks.blank_session
                  Callbacks.blank_token 3 eq_refl)).
Defined.

Lemma session_of_authorize_witness :
  let s := Callbacks.session Callbacks.blank_session
             (Callbacks.jwt Callbacks.blank_token
                (Callbacks.Obj (Auth.public_identity Auth.alice))) in
  Callbacks.user_field s "username" = Some (Js.VStr "alice")
  ∧ Callbacks.user_field s "password" = None
  ∧ Callbacks.user_field s "admin" = None.
Proof.
  destruct (session_of_authorize (Auth.findUnique_in Auth.demo_db)
              Auth.demo_compare
              (Some {| Auth.c_email := Some "a@x.com";
                       Auth.c_password := Some "correct" |})
              (Auth.public_identity Auth.alice)
              Callbacks.blank_session Callbacks.blank_token 0 eq_refl)
    as (user & Hu & Hf).
  injection Hu as <-.
  exact (conj (Hf "username") (conj (Hf "password") (Hf "admin"))).
Defined.

(** ** The like toggle, from click to settlement *)

Section LikeMore.

Import Like.

Lemma optimistic_involutive p : optimistic (optimistic p) = p.
Proof.
  destruct p as [i u im t a v ic lc liked ls].
  unfold optimistic, with_like. simpl. f_equal.
  - destruct liked; simpl; lia.
  - by destruct liked.
Qed.

Lemma settle_cache username rendered r st :
  cache (settle username rendered r st)
  = match r, rendered with
    | Rejected, Some p =>
        <[username := with_like p (negb (authUserHasLiked p)) (likeCount p)]>
          (cache st)
    | _, _ => cache st
    end.
Proof. by destruct r, rendered. Qed.

Lemma settle_log username rendered r st :
  log (settle username rendered r st)
  = log st
    ++ match r with
       | Resolved => []
       | Rejected => [ToastError "Could not like!"]
       end
    ++ [Invalidate username].
Proof.
  destruct r; simpl; [done|].
  unfold onError, handleErrors, onError_fn.
  destruct rendered; simpl; by rewrite <- app_assoc.
Qed.

Lemma mutate_cache username id st :
  cache (mutate username id st).1
  = match getData username st with
    | Some p => <[username := optimistic p]> (cache st)
    | None => cache st
    end.
Proof.
  destruct (getData username st) as [p|] eqn:Hp.
  - by rewrite (mutate_found _ _ _ _ Hp).
  - by rewrite (mutate_missing _ _ _ Hp).
Qed.

Lemma mutate_log username id st :
  log (mutate username id st).1 = log st ++ [Cancel username; LikeRequest id].
Proof.
  destruct (getData username st) as [p|] eqn:Hp.
  - by rewrite (mutate_found _ _ _ _ Hp).
  - by rewrite (mutate_missing _ _ _ Hp).
Qed.

(** X6. Two toggles that the server accepts bring the cache back to what it
    was: the optimistic write undoes itself, flag and count. *)
Theorem toggle_twice_restores username id st p rendered rendered' :
  getData username st = Some p →
  let once := settle username rendered Resolved (mutate username id st).1 in
  let twice :=
    settle username rendered' Resolved (mutate username id once).1 in
  getData username once = Some (optimistic p)
  ∧ cache twice = cache st.
Proof.
  intros Hp once twice.
  assert (getData username once = Some (optimistic p)) as Honce.
  { unfold once, getData. rewrite settle_cache, mutate_cache, Hp.
    apply lookup_insert_eq. }
  split; [done|].
  unfold twice. rewrite settle_cache, mutate_cache, Honce.
  unfold once. rewrite settle_cache, mutate_cache, Hp.
  rewrite insert_insert_eq, optimistic_involutive.
  by apply insert_id.
Qed.

(** X7. Whatever the outcome and whatever the prop, a toggle sends exactly
    one request, after cancelling the running profile queries, and ends by
    invalidating the profile query; a rejection adds one toast before
    that. *)
Theorem toggle_log username id rendered r st :
  log (settle username rendered r (mutate username id st).1)
  = log st
    ++ [Cancel username; LikeRequest id]
    ++ match r with
       | Resolved => []
       | Rejected => [ToastError "Could not like!"]
       end
    ++ [Invalidate username].
Proof. by rewrite settle_log, mutate_log, <- app_assoc. Qed.

(** X8. A toggle on one profile never touches the cached entry of another,
    whatever its outcome. *)
Theorem toggle_frame username id rendered r st other :
  other ≠ username →
  getData other (settle username rendered r (mutate username id st).1)
  = getData other st.
Proof.
  intros Hne. unfold getData. rewrite settle_cache, mutate_cache.
  destruct r, rendered, (getData username st);
    by rewrite ?lookup_insert_ne.
Qed.

(** X9. A rejected toggle whose [onError] sees the optimistic entry as prop
    puts the flag back to its value before the click and leaves the count
    where the optimistic write put it, one off. *)
Theorem failed_toggle_flag_only username id st s :
  getData username st = Some s →
  getData username (failed_toggle username id (Some (optimistic s)) st)
  = Some (with_like s (authUserHasLiked s)
            (if authUserHasLiked s then likeCount s - 1
             else likeCount s + 1)%Z).
Proof.
  intros Hs. rewrite (failed_toggle_entry _ _ _ _ _ Hs). f_equal.
  unfold optimistic, with_like. simpl.
  by destruct (authUserHasLiked s).
Qed.

(** X10. The like button sends a request exactly when the visitor is
    authenticated and the profile prop carries a non-empty id; any other
    visitor is sent to the login page, and the cache is left alone. *)
Theorem onClick_sends_iff authStatus username profileData st :
  ∃ new,
    log (onClick authStatus username profileData st).1 = log st ++ new
    ∧ ((∃ i, LikeRequest i ∈ new)
       ↔ authStatus = authenticated
         ∧ ∃ p, profileData = Some p ∧ id p ≠ "")
    ∧ (authStatus ≠ authenticated →
       new = [Push "/login"]
       ∧ cache (onClick authStatus username profileData st).1 = cache st).
Proof.
  destruct authStatus; simpl.
  - destruct profileData as [p|]; simpl.
    + destruct (String.eqb (id p) "") eqn:E; simpl.
      * exists [SetLikeAnimation true]. split; [done|]. split; [|done].
        apply String.eqb_eq in E. split.
        -- intros [i Hi]. by apply list_elem_of_singleton in Hi.
        -- intros (_ & q & [= <-] & Hne). done.
      * exists [SetLikeAnimation true; Cancel username; LikeRequest (id p)].
        split.
        { rewrite mutate_log. simpl. by rewrite <- app_assoc. }
        split; [|done]. apply String.eqb_neq in E. split.
        -- intros _. split; [done|]. by exists p.
        -- intros _. exists (id p). by repeat constructor.
    + exists [SetLikeAnimation true]. split; [done|]. split; [|done].
      split.
      * intros [i Hi]. by apply list_elem_of_singleton in Hi.
      * by intros (_ & q & ? & _).
  - exists [Push "/login"]. split; [done|]. split; [|done].
    split; [intros [i Hi]; by apply list_elem_of_singleton in Hi | by intros [? _]].
  - exists [Push "/login"]. split; [done|]. split; [|done].
    split; [intros [i Hi]; by apply list_elem_of_singleton in Hi | by intros [? _]].
Qed.

End LikeMore.

Lemma toggle_twice_restores_witness :
  let st := Like.client_of {["alice" := Like.profile_of false 5]} in
  let once :=
    Like.settle "alice" None Like.Resolved (Like.mutate "alice" "u1" st).1 in
  let twice :=
    Like.settle "alice" None Like.Resolved (Like.mutate "alice" "u1" once).1 in
  Like.getData "alice" once = Some (Like.profile_of true 6)
  ∧ Like.cache twice = Like.cache st.
Proof.
  exact (toggle_twice_restores "alice" "u1"
           (Like.client_of {["alice" := Like.profile_of false 5]})
           (Like.profile_of false 5) None None eq_refl).
Defined.

Lemma toggle_frame_witness :
  let st := Like.client_of {["alice" := Like.profile_of false 5;
                             "bob" := Like.profile_of true 2]} in
  Like.getData "bob" (Like.failed_toggle "alice" "u1" None st)
  = Some (Like.profile_of true 2).
Proof.
  refine (eq_trans
            (toggle_frame "alice" "u1" None Like.Rejected
               (Like.client_of {["alice" := Like.profile_of false 5;
                                 "bob" := Like.profile_of true 2]})
               "bob" _) _).
  - discriminate.
  - reflexivity.
Defined.

Lemma failed_toggle_flag_only_witness :
  let st := Like.client_of {["alice" := Like.profile_of true 5]} in
  Like.getData "alice"
    (Like.failed_toggle "alice" "u1" (Some (Like.profile_of false 4)) st)
  = Some (Like.profile_of true 4).
Proof.
  exact (failed_toggle_flag_only "alice" "u1"
           (Like.client_of {["alice" := Like.profile_of true 5]})
           (Like.profile_of true 5) eq_refl).
Defined.

(** ** Text of a profile link *)

Section LinkTextFacts.

Import LinkText.

Lemma append_cons (x : ascii) (a b : string) :
  String x a +:+ b = String x (a +:+ b).
Proof. reflexivity. Qed.

Lemma append_assoc (a b c : string) : (a +:+ b) +:+ c = a +:+ (b +:+ c).
Proof.
  induction a as [|x a IH]; [done|]. by rewrite !append_cons, IH.
Qed.

Lemma append_empty_r (a : string) : a +:+ "" = a.
Proof.
  induction a as [|x a IH]; [done|]. by rewrite append_cons, IH.
Qed.

Lemma span_word_spec s :
  s = (span_word s).1 +:+ (span_word s).2
  ∧ all_word (span_word s).1 = true.
Proof.
  induction s as [|a s [IH1 IH2]]; [done|]. simpl.
  destruct (is_word a) eqn:Ha; [|done].
  destruct (span_word s) as [w r]. simpl in *.
  split; [by rewrite append_cons, <- IH1 | by rewrite Ha].
Qed.

Lemma span_word_colon w rest :
  all_word w = true →
  span_word (w +:+ String ":" rest) = (w, String ":" rest).
Proof.
  induction w as [|a w IH]; [done|].
  rewrite append_cons. simpl.
  intros [Ha Hw]%andb_true_iff. by rewrite Ha, (IH Hw).
Qed.

Lemma strip_prefix_spec p : ∀ s r,
  strip_prefix p s = Some r → s = p +:+ r.
Proof.
  induction p as [|a p IH]; intros [|b s] r; simpl; try done.
  - by intros [= <-].
  - by intros [= <-].
  - destruct (Ascii.eqb a b) eqn:E; [|done].
    apply Ascii.eqb_eq in E as ->. intros H.
    by rewrite append_cons, <- (IH _ _ H).
Qed.

Lemma strip_slash_spec s :
  s = strip_slash s ∨ s = strip_slash s +:+ "/".
Proof.
  induction s as [|a s IH]; [by left|].
  destruct s as [|b s].
  - simpl. destruct (Ascii.eqb a "/") eqn:E; [|by left].
    apply Ascii.eqb_eq in E as ->. by right.
  - change (strip_slash (String a (String b s)))
      with (String a (strip_slash (String b s))).
    destruct IH as [IH | IH]; [left | right];
      by rewrite ?append_cons, <- IH.
Qed.

(** What [strip_scheme] removes. *)
Lemma strip_scheme_spec url :
  ∃ pre,
    url = pre +:+ strip_scheme url
    ∧ (pre = "" ∨ pre = "//"
       ∨ ∃ w, w ≠ "" ∧ all_word w = true ∧ pre = w +:+ "://").
Proof.
  unfold strip_scheme.
  destruct (span_word_spec url) as [Hs Hw].
  destruct (span_word url) as [w r]. simpl in Hs, Hw.
  assert (∃ pre, url = pre +:+ default url (strip_prefix "//" url)
                 ∧ (pre = "" ∨ pre = "//")) as Hfallback.
  { destruct (strip_prefix "//" url) as [rest|] eqn:E; simpl.
    - exists "//". split; [by apply strip_prefix_spec | by right].
    - exists "". split; [done | by left]. }
  destruct w as [|a w].
  - destruct Hfallback as (pre & ? & ?). exists pre. tauto.
  - destruct (strip_prefix "://" r) as [rest|] eqn:E.
    + exists (String a w +:+ "://"). split.
      * rewrite Hs, (strip_prefix_spec _ _ _ E). by rewrite append_assoc.
      * right. right. by exists (String a w).
    + destruct Hfallback as (pre & ? & ?). exists pre. tauto.
Qed.

(** X11. A leading scheme made of word characters, with its [://], is not
    shown, nor is a leading [//]; of what follows, only one final slash
    goes. *)
Theorem link_text_strips_scheme scheme rest :
  scheme ≠ "" →
  all_word scheme = true →
  link_text (scheme +:+ "://" +:+ rest) = strip_slash rest
  ∧ link_text ("//" +:+ rest) = strip_slash rest.
Proof.
  intros Hne Hw. unfold link_text, strip_scheme. split.
  - change ("://" +:+ rest) with (String ":" (String "/" (String "/" rest))).
    rewrite (span_word_colon _ _ Hw). simpl.
    by destruct scheme.
  - reflexivity.
Qed.

(** X12. The text shown is a piece of the URL itself: the URL is this text
    after nothing, a [//] or a [scheme://], and before nothing or one
    slash. Nothing is ever added or rewritten. *)
Theorem link_text_is_piece url :
  ∃ pre suf,
    url = pre +:+ link_text url +:+ suf
    ∧ (pre = "" ∨ pre = "//"
       ∨ ∃ w, w ≠ "" ∧ all_word w = true ∧ pre = w +:+ "://")
    ∧ (suf = "" ∨ suf = "/").
Proof.
  destruct (strip_scheme_spec url) as (pre & Hu & Hpre).
  unfold link_text.
  destruct (strip_slash_spec (strip_scheme url)) as [Hs | Hs].
  - exists pre, "". rewrite append_empty_r, <- Hs. tauto.
  - exists pre, "/". rewrite <- Hs. tauto.
Qed.

End LinkTextFacts.

Lemma link_text_strips_scheme_witness :
  LinkText.link_text "https://outfits.bio/alice/" = "outfits.bio/alice"
  ∧ LinkText.link_text "//cdn.example.com" = "cdn.example.com".
Proof.
  split.
  - exact (proj1 (link_text_strips_scheme "https" "outfits.bio/alice/"
                    ltac:(discriminate) eq_refl)).
  - exact (proj2 (link_text_strips_scheme "https" "cdn.example.com"
                    ltac:(discriminate) eq_refl)).
Defined.

(** ** Post modal *)

Section PostModalFacts.

Import PostModal.

(** The first piece of a split holds no separator, and the string is that
    piece alone or that piece, a separator, and more. *)
Lemma split_head c s :
  ∃ piece pieces,
    split c s = piece :: pieces
    ∧ occurs c piece = false
    ∧ (s = piece ∨ ∃ q, s = piece +:+ String c q).
Proof.
  induction s as [|a s (piece & pieces & Hs & Ho & Hd)]; simpl.
  - exists "", []. split; [done|]. split; [done | by left].
  - destruct (Ascii.eqb a c) eqn:E.
    + apply Ascii.eqb_eq in E as ->.
      exists "", (split c s). split; [done|]. split; [done|].
      right. by exists s.
    + rewrite Hs. exists (String a piece), pieces.
      split; [done|]. split; [by simpl; rewrite E, Ho|].
      destruct Hd as [-> | [q ->]]; [by left | right; by exists q].
Qed.

(** X13. [closeModal] pushes the path up to the first question mark: what it
    pushes holds no question mark and is the whole path or the path cut
    before its query. The ["/"] fallback is never taken, so a path that
    starts with a question mark, or is empty, gives the empty path. *)
Theorem closeModal_drops_query asPath :
  split "?" asPath !! 0%nat = Some (closeModal asPath)
  ∧ occurs "?" (closeModal asPath) = false
  ∧ (asPath = closeModal asPath
     ∨ ∃ q, asPath = closeModal asPath +:+ String "?" q).
Proof.
  unfold closeModal.
  destruct (split_head "?" asPath) as (piece & pieces & -> & Ho & Hd).
  by simpl.
Qed.

(** X14. A path without a question mark is pushed unchanged, and pushing is
    idempotent. *)
Theorem closeModal_idempotent asPath :
  closeModal (closeModal asPath) = closeModal asPath
  ∧ (occurs "?" asPath = false → closeModal asPath = asPath).
Proof.
  assert (∀ s, occurs "?" s = false → closeModal s = s) as Hfix.
  { intros s. unfold closeModal. induction s as [|a s IH]; [done|].
    simpl. destruct (Ascii.eqb a "?") eqn:E; [done|]. simpl.
    intros Ho. specialize (IH Ho).
    destruct (split_head "?" s) as (piece & pieces & Hs & _).
    rewrite Hs in *. simpl in *. by subst. }
  split; [|apply Hfix].
  apply Hfix. apply closeModal_drops_query.
Qed.

(** X15. When the modal renders, the owner's Delete entry is shown exactly to
    a signed-in viewer whose id is the profile's, Report to every
    signed-in viewer, the admin's Delete to a viewer with a truthy [admin];
    a visitor without session gets Share alone. Nothing renders while the
    post or the profile is missing. *)
Theorem menu_entries data post user items :
  menu data post user = Some items →
  ∃ u,
    user = Some u
    ∧ is_Some post
    ∧ Share ∈ items
    ∧ (Report ∈ items ↔ is_Some data)
    ∧ (DeleteOwn ∈ items ↔ ∃ d, data = Some d ∧ viewer_id d = Like.id u)
    ∧ (DeleteAdmin ∈ items ↔ ∃ d, data = Some d ∧ viewer_admin d = true)
    ∧ (data = None → items = [Share]).
Proof.
  unfold menu, userIsProfileOwner.
  destruct post as [post|], user as [u|]; try done.
  intros [= <-]. exists u. split; [done|]. split; [by eexists|].
  destruct data as [[vid vadm]|]; simpl.
  - repeat case_bool_decide; destruct vadm; simpl;
      rewrite ?elem_of_cons, ?elem_of_nil;
      try (exfalso; by eauto); naive_solver.
  - repeat case_bool_decide; simpl;
      rewrite ?elem_of_cons, ?elem_of_nil;
      try (by destruct (is_Some_None (A:=Viewer))); naive_solver.
Qed.

Lemma is_word_to_lower a : LinkText.is_word (to_lower a) = LinkText.is_word a.
Proof.
  destruct a as [[] [] [] [] [] [] [] []]; reflexivity.
Qed.

Lemma to_upper_to_lower a : to_upper (to_lower a) = to_upper a.
Proof.
  destruct a as [[] [] [] [] [] [] [] []]; reflexivity.
Qed.

Lemma to_lower_to_lower a : to_lower (to_lower a) = to_lower a.
Proof.
  destruct a as [[] [] [] [] [] [] [] []]; reflexivity.
Qed.

Lemma capitalize_inside_word s :
  LinkText.all_word s = true →
  capitalize true (toLowerCase s) = toLowerCase s.
Proof.
  induction s as [|a s IH]; simpl; [done|].
  intros [Ha Hs]%andb_true_iff.
  by rewrite is_word_to_lower, Ha, (IH Hs), andb_false_r.
Qed.

(** X16. A type name made of word characters only (letters, digits,
    underscores) is headed by its first character in upper case followed
    by the rest in lower case. *)
Theorem heading_of_word a s :
  LinkText.all_word (String a s) = true →
  heading (String a s) = String (to_upper a) (toLowerCase s).
Proof.
  simpl. intros [Ha Hs]%andb_true_iff. unfold heading. simpl.
  by rewrite is_word_to_lower, Ha, to_upper_to_lower,
       (capitalize_inside_word _ Hs).
Qed.

End PostModalFacts.

Lemma closeModal_idempotent_witness :
  PostModal.closeModal "/alice" = "/alice"
  ∧ PostModal.closeModal "/alice?postId=7&x=?" = "/alice".
Proof.
  split.
  - exact (proj2 (closeModal_idempotent "/alice") eq_refl).
  - reflexivity.
Defined.

Lemma menu_entries_witness :
  let owner := {| PostModal.viewer_id := "u1"; PostModal.viewer_admin := false |} in
  PostModal.menu (Some owner) (Some "p1") (Some (Like.profile_of false 5))
  = Some [PostModal.Share; PostModal.Report; PostModal.DeleteOwn]
  ∧ PostModal.DeleteOwn
    ∈ [PostModal.Share; PostModal.Report; PostModal.DeleteOwn].
Proof.
  split; [reflexivity|].
  destruct (menu_entries
              (Some {| PostModal.viewer_id := "u1";
                       PostModal.viewer_admin := false |})
              (Some "p1") (Some (Like.profile_of false 5)) _ eq_refl)
    as (u & Hu & _ & _ & _ & Hown & _).
  injection Hu as <-. apply Hown. by eexists.
Defined.

Lemma heading_of_word_witness :
  PostModal.heading "OUTFIT" = "Outfit"
  ∧ PostModal.heading "head_WEAR" = "Head_wear".
Proof.
  split.
  - exact (heading_of_word "O" "UTFIT" eq_refl).
  - exact (heading_of_word "h" "ead_WEAR" eq_refl).
Defined.

(** ** Chains of answers on the settings page *)

Section ChainFacts.

Import Settings Chain.

Lemma take_weight k : ∀ l rest,
  take k l = Some rest →
  total_weight l = (weight k + total_weight rest)%nat.
Proof.
  induction l as [|k' l IH]; intros rest; simpl; [done|].
  case_bool_decide as Hk.
  - intros [= <-]. by subst.
  - destruct (take k l) as [rest'|]; simpl; [|done].
    intros [= <-]. simpl. rewrite (IH rest' eq_refl). lia.
Qed.

Lemma total_weight_app l1 l2 :
  total_weight (l1 ++ l2) = (total_weight l1 + total_weight l2)%nat.
Proof.
  induction l1 as [|k l1 IH]; simpl; [done|].
  unfold total_weight in *. simpl. rewrite IH. lia.
Qed.

Lemma react_inflight v d p :
  inflight (react v d p)
  = inflight p ++ match d with SetImageResolved _ => [PPut] | _ => [] end.
Proof.
  destruct d; simpl; rewrite ?app_nil_r; try reflexivity.
  unfold setImage_onSuccess_resume.
  by destruct (negb (Js.truthy (username (getValues v)))).
Qed.

Lemma react_loading v d p :
  loading (react v d p) = loading p && negb (is_rejection d).
Proof.
  destruct d; simpl; rewrite ?andb_true_r, ?andb_false_r; try reflexivity.
  unfold setImage_onSuccess_resume.
  by destruct (negb (Js.truthy (username (getValues v)))).
Qed.

Lemma deliver_weight v d p p' :
  deliver v d p = Some p' →
  (S (total_weight (inflight p')) ≤ total_weight (inflight p))%nat.
Proof.
  unfold deliver.
  destruct (take (awaited d) (inflight p)) as [rest|] eqn:Ht; simpl; [|done].
  intros [= <-]. rewrite react_inflight, total_weight_app. simpl.
  rewrite (take_weight _ _ _ Ht). destruct d; simpl; lia.
Qed.

Lemma deliver_loading v d p p' :
  deliver v d p = Some p' →
  loading p' = loading p && negb (is_rejection d).
Proof.
  unfold deliver.
  destruct (take (awaited d) (inflight p)) as [rest|]; simpl; [|done].
  intros [= <-]. by rewrite react_loading.
Qed.

Lemma run_weight schedule : ∀ p final,
  run schedule p = Some final →
  (List.length schedule + total_weight (inflight final)
   ≤ total_weight (inflight p))%nat.
Proof.
  induction schedule as [|[v d] schedule IH]; intros p final; simpl.
  - intros [= <-]. lia.
  - destruct (deliver v d p) as [p'|] eqn:Hd; simpl; [|done].
    intros Hrun. specialize (IH _ _ Hrun).
    pose proof (deliver_weight _ _ _ _ Hd). lia.
Qed.

Lemma run_effects schedule : ∀ p final,
  run schedule p = Some final →
  trace final = trace p ++ effects schedule.
Proof.
  induction schedule as [|[v d] schedule IH]; intros p final; simpl.
  - intros [= <-]. by rewrite app_nil_r.
  - destruct (deliver v d p) as [p'|] eqn:Hd; simpl; [|done].
    intros Hrun. rewrite (IH _ _ Hrun), (deliver_trace _ _ _ _ Hd).
    unfold effects. simpl. by rewrite <- app_assoc.
Qed.

Lemma run_loading schedule : ∀ p final,
  run schedule p = Some final →
  loading final
  = loading p && forallb (λ x, negb (is_rejection x.2)) schedule.
Proof.
  induction schedule as [|[v d] schedule IH]; intros p final; simpl.
  - intros [= <-]. by rewrite andb_true_r.
  - destruct (deliver v d p) as [p'|] eqn:Hd; simpl; [|done].
    intros Hrun. rewrite (IH _ _ Hrun), (deliver_loading _ _ _ _ Hd).
    by rewrite andb_assoc.
Qed.

Lemma handleFormSubmit_idle v input :
  handleFormSubmit v input idle
  = {| loading := has_length (username input) || has_length (tagline input);
       inflight :=
         (if bool_decide (is_Some (file v)) then [PSetImage] else [])
         ++ (if has_length (username input) || has_length (tagline input)
             then [PEditProfile] else []);
       trace :=
         [SetLoading true]
         ++ (if bool_decide (is_Some (file v)) then [CallSetImage] else [])
         ++ (if has_length (username input) || has_length (tagline input)
             then [CallEditProfile input] else [SetLoading false]) |}.
Proof.
  unfold handleFormSubmit.
  destruct (bool_decide (is_Some (file v)));
    destruct (has_length (username input) || has_length (tagline input));
    reflexivity.
Qed.

Lemma effects_elem e schedule :
  e ∈ effects schedule ↔ ∃ v d, (v, d) ∈ schedule ∧ e ∈ added v d.
Proof.
  unfold effects. induction schedule as [|[v d] schedule IH]; simpl.
  - rewrite elem_of_nil. split; [done|].
    intros (v & d & H & _). by apply elem_of_nil in H.
  - rewrite elem_of_app, IH. split.
    + intros [H | (v' & d' & H & He)].
      * exists v, d. split; [by left | done].
      * exists v', d'. split; [by right | done].
    + intros (v' & d' & H & He). apply elem_of_cons in H as [[= -> ->] | H].
      * by left.
      * right. by exists v', d'.
Qed.

Lemma refreshed_first_app l2 :
  (∀ b, refreshed_first b l2 = true) →
  ∀ l1 b, refreshed_first b l1 = true → refreshed_first b (l1 ++ l2) = true.
Proof.
  intros H2. induction l1 as [|e l1 IH]; intros b; simpl; [by intros _|].
  destruct e; try apply IH.
  intros [-> H]%andb_true_iff. simpl. by apply IH.
Qed.

Lemma added_refreshed_first v d b : refreshed_first b (added v d) = true.
Proof.
  destruct d; simpl; try done.
  by destruct (Js.truthy (username (getValues v))).
Qed.

Lemma effects_refreshed_first schedule : ∀ b,
  refreshed_first b (effects schedule) = true.
Proof.
  unfold effects. induction schedule as [|[v d] schedule IH]; intros b; [done|].
  simpl. apply refreshed_first_app; [apply IH | apply added_refreshed_first].
Qed.

Lemma refreshed_first_sound l : ∀ b pre path post,
  refreshed_first b l = true →
  l = pre ++ Push path :: post →
  (pre = [] ∧ b = true) ∨ ∃ pre', pre = pre' ++ [Update].
Proof.
  induction l as [|e l IH]; intros b pre path post Hr Heq.
  - by destruct pre.
  - destruct pre as [|e' pre]; simpl in Heq; injection Heq as -> ->.
    + simpl in Hr. apply andb_true_iff in Hr as [-> _]. by left.
    + right.
      assert (∃ b', refreshed_first b' (pre ++ Push path :: post) = true
                    ∧ (b' = true → e' = Update)) as (b' & Hr' & He).
      { destruct e'; simpl in Hr;
          try (exists false; split; [done | discriminate]).
        - by exists true.
        - apply andb_true_iff in Hr as [_ Hr].
          exists false. split; [done | discriminate]. }
      destruct (IH b' pre path post Hr' eq_refl) as [[-> Hb] | [pre' ->]].
      * exists []. by rewrite (He Hb).
      * by exists (e' :: pre').
Qed.

(** X17. From an idle page, a submission is answered at most three times: once
    per call it made, and once more for the transfer a granted upload
    starts. No schedule of answers goes on longer. *)
Theorem chain_is_bounded v input schedule final :
  run schedule (handleFormSubmit v input idle) = Some final →
  (List.length schedule
   ≤ (if bool_decide (is_Some (file v)) then 2 else 0)
     + (if has_length (username input) || has_length (tagline input)
        then 1 else 0))%nat.
Proof.
  intros Hrun. apply run_weight in Hrun.
  rewrite handleFormSubmit_idle in Hrun. simpl in Hrun.
  rewrite total_weight_app in Hrun.
  destruct (bool_decide (is_Some (file v)));
    destruct (has_length (username input) || has_length (tagline input));
    simpl in *; lia.
Qed.

(** X18. In any chain started from an idle page, every [push] comes right
    after an [update()]: the page never navigates without having asked for
    a session refresh just before. *)
Theorem push_follows_update v input schedule final pre path post :
  run schedule (handleFormSubmit v input idle) = Some final →
  trace final = pre ++ Push path :: post →
  ∃ pre', pre = pre' ++ [Update].
Proof.
  intros Hrun Heq. rewrite (run_effects _ _ _ Hrun) in Heq.
  assert (refreshed_first false
            (trace (handleFormSubmit v input idle) ++ effects schedule)
          = true) as Hr.
  { apply refreshed_first_app; [apply effects_refreshed_first|].
    rewrite handleFormSubmit_idle. simpl.
    destruct (bool_decide (is_Some (file v)));
      by destruct (has_length (username input) || has_length (tagline input)). }
  destruct (refreshed_first_sound _ _ _ _ _ Hr Heq) as [[_ ?] | ?]; done.
Qed.

(** X19. When a transfer completes while the form's username is empty and the
    profile update succeeds as well, the page navigates twice: to the
    session's username and to the username the update returned. *)
Theorem both_navigations p schedule final v1 v2 data_username :
  run schedule p = Some final →
  (v1, PutResolved) ∈ schedule →
  Js.empty (username (getValues v1)) →
  (v2, EditProfileResolved data_username) ∈ schedule →
  Push ("/" +:+ Js.interpolate (user_username <$> session v1)) ∈ trace final
  ∧ Push ("/" +:+ data_username) ∈ trace final.
Proof.
  intros Hrun H1 He H2. rewrite (run_effects _ _ _ Hrun).
  apply truthy_false_iff in He.
  split; apply elem_of_app; right; apply effects_elem.
  - exists v1, PutResolved. split; [done|]. simpl. rewrite He.
    by repeat constructor.
  - exists v2, (EditProfileResolved data_username). split; [done|].
    by repeat constructor.
Qed.

(** X20. Bytes are only ever put to a URL that [setImage] returned in this
    chain, and the body is the file staged when that answer arrived. *)
Theorem put_only_to_granted_url v input schedule final url body :
  run schedule (handleFormSubmit v input idle) = Some final →
  AxiosPut url body ∈ trace final →
  ∃ v', (v', SetImageResolved url) ∈ schedule ∧ body = file v'.
Proof.
  intros Hrun Hin. rewrite (run_effects _ _ _ Hrun) in Hin.
  apply elem_of_app in Hin as [Hin | Hin].
  - rewrite handleFormSubmit_idle in Hin. simpl in Hin.
    destruct (bool_decide (is_Some (file v)));
      destruct (has_length (username input) || has_length (tagline input));
      simpl in Hin; rewrite ?elem_of_cons, elem_of_nil in Hin;
      naive_solver.
  - apply effects_elem in Hin as (v' & d & Hd & Hin).
    destruct d; simpl in Hin;
      try (destruct (Js.truthy (username (getValues v'))));
      rewrite ?elem_of_cons, ?elem_of_nil in Hin;
      try naive_solver.
Qed.

(** X21. No answer raises the loading flag, and every rejection lowers it:
    after a chain it is up exactly when the submission carried a
    non-empty field and no answer was a rejection. With a file staged and
    both fields empty it is down during the whole upload; when every call
    succeeds it is never lowered. *)
Theorem loading_after_chain v input schedule final :
  run schedule (handleFormSubmit v input idle) = Some final →
  loading final
  = (has_length (username input) || has_length (tagline input))
    && forallb (λ x, negb (is_rejection x.2)) schedule.
Proof.
  intros Hrun. rewrite (run_loading _ _ _ Hrun).
  by rewrite handleFormSubmit_idle.
Qed.

End ChainFacts.

Lemma demo_chain_runs :
  Settings.run Chain.demo_schedule
    (Settings.handleFormSubmit Chain.demo_view
       (Settings.getValues Chain.demo_view) Settings.idle)
  = Some Chain.demo_final.
Proof. reflexivity. Defined.

Lemma chain_is_bounded_witness :
  (List.length Chain.demo_schedule ≤ 3)%nat.
Proof.
  exact (chain_is_bounded Chain.demo_view (Settings.getValues Chain.demo_view)
           Chain.demo_schedule Chain.demo_final demo_chain_runs).
Defined.

Lemma push_follows_update_witness :
  ∃ pre',
    [ Settings.SetLoading true; Settings.CallSetImage;
      Settings.CallEditProfile (Settings.getValues Chain.demo_view);
      Settings.AxiosPut "https://bucket/put" (Some Settings.avatar);
      Settings.Update; Settings.Push "/bob"; Settings.Update ]
    = pre' ++ [Settings.Update].
Proof.
  exact (push_follows_update Chain.demo_view
           (Settings.getValues Chain.demo_view)
           Chain.demo_schedule Chain.demo_final
           [ Settings.SetLoading true; Settings.CallSetImage;
             Settings.CallEditProfile (Settings.getValues Chain.demo_view);
             Settings.AxiosPut "https://bucket/put" (Some Settings.avatar);
             Settings.Update; Settings.Push "/bob"; Settings.Update ]
           "/bob" [] demo_chain_runs eq_refl).
Defined.

Lemma both_navigations_witness :
  Settings.Push "/bob" ∈ Settings.trace Chain.demo_final.
Proof.
  refine (proj1 (both_navigations _ Chain.demo_schedule Chain.demo_final
                   Chain.demo_view Chain.demo_view "bob"
                   demo_chain_runs _ (or_introl eq_refl) _)).
  - apply list_elem_of_further, list_elem_of_here.
  - apply list_elem_of_further, list_elem_of_further, list_elem_of_here.
Defined.

Lemma put_only_to_granted_url_witness :
  ∃ v', (v', Settings.SetImageResolved "https://bucket/put")
        ∈ Chain.demo_schedule
        ∧ Some Settings.avatar = Settings.file v'.
Proof.
  refine (put_only_to_granted_url Chain.demo_view
            (Settings.getValues Chain.demo_view)
            Chain.demo_schedule Chain.demo_final
            "https://bucket/put" (Some Settings.avatar)
            demo_chain_runs _).
  do 3 apply list_elem_of_further. apply list_elem_of_here.
Defined.

Lemma loading_after_chain_witness :
  Settings.loading Chain.demo_final = true.
Proof.
  exact (loading_after_chain Chain.demo_view
           (Settings.getValues Chain.demo_view)
           Chain.demo_schedule Chain.demo_final demo_chain_runs).
Defined.
